(** * NewsLens recommendations microservice: a shallow embedding of
    [recommendations.py] ([store_articles], [get_recommendations]).

    Python floats (embedding components, distances, scores) are modelled
    as rationals [Q]; the spec's cosine similarity, which needs a square
    root, is stated over [R].  The ChromaDB collection is an interface
    ([VectorStore]); [FlatStore] is an exact brute-force instance of it
    with ChromaDB's default distance space "l2" (squared Euclidean). The
    sentence-transformer model is a function [encode] that may raise.

    Python [str] values are modelled as Rocq strings whose characters
    stand for the code points U+0000 to U+00FF (Latin-1): the character
    numbered [n] is the code point [n].  Text with code points beyond
    U+00FF is outside the model. *)

From Stdlib Require Import ZArith QArith Qround List String Ascii Bool Lia.
From Stdlib Require Import Reals Sorted Lqa.
Import ListNotations.
Open Scope string_scope.

(** ** Python values of the input records *)

(** A field value of a raw article record: a string, or JSON [null]. *)
Inductive fieldval :=
| FStr (s : string)
| FNone.

(** The [source] field: a dict whose [name] key may be absent, or some
    other value (a string, [None]). *)
Inductive srcval :=
| SDict (name : option fieldval)
| SOther (v : fieldval).

(** A raw article dict; [None] means the key is absent. *)
Record article := mkArticle {
  a_title : option fieldval;
  a_description : option fieldval;
  a_url : option fieldval;
  a_source : option srcval
}.

(** [str(v)] and [f"{v}"] of a field value. *)
Definition py_str (v : fieldval) : string :=
  match v with
  | FStr s => s
  | FNone => "None"
  end.

(** [article.get(key, default)] followed by [str]. *)
Definition get_str (o : option fieldval) (default : string) : string :=
  match o with
  | Some v => py_str v
  | None => default
  end.

(** Characters removed by [str.strip()]: the code points of U+0000 to
    U+00FF for which [str.isspace] holds, i.e. 9-13, 28-32, U+0085 (NEL)
    and U+00A0 (no-break space). *)
Definition is_ws (c : ascii) : bool :=
  let n := nat_of_ascii c in
  ((9 <=? n)%nat && (n <=? 13)%nat) || ((28 <=? n)%nat && (n <=? 32)%nat)
  || (n =? 133)%nat || (n =? 160)%nat.

Fixpoint lstrip_list (l : list ascii) : list ascii :=
  match l with
  | [] => []
  | c :: r => if is_ws c then lstrip_list r else l
  end.

(** [s.strip()]. *)
Definition strip (s : string) : string :=
  string_of_list_ascii
    (rev (lstrip_list (rev (lstrip_list (list_ascii_of_string s))))).

(** The derived text: [f"{title} {description}".strip()]. *)
Definition derived_text (a : article) : string :=
  strip (get_str (a_title a) "" ++ " " ++ get_str (a_description a) "").

(** [str(i)] for a list position [i]. *)
Fixpoint digits_aux (fuel n : nat) (acc : string) : string :=
  match fuel with
  | O => acc
  | S f =>
      let acc' := String (ascii_of_nat (48 + n mod 10)%nat) acc in
      if (n <? 10)%nat then acc' else digits_aux f (n / 10)%nat acc'
  end.

Definition str_nat (n : nat) : string := digits_aux (S n) n "".

(** ** Vectors, metadata and the vector-store interface *)

Definition vec := list Q.

(** A ChromaDB metadata mapping, as stored by [store_articles]. *)
Definition meta := list (string * string).

Fixpoint meta_get (m : meta) (k default : string) : string :=
  match m with
  | [] => default
  | (k', v) :: r => if String.eqb k k' then v else meta_get r k default
  end.

(** The dict returned by [collection.query]: one inner list per query
    embedding; a key may be missing ([results.get] gives [None]). *)
Record query_result := mkQR {
  qr_metadatas : option (list (list (option meta)));
  qr_distances : option (list (list Q))
}.

(** Exceptions that reach the caller. *)
Inductive exn :=
| EncoderError
| StoreError (msg : string)
| IndexError.

(** The operations of the ChromaDB collection the module uses. *)
Class VectorStore (S : Type) := {
  vs_count : S -> Z;
  vs_add : S -> list string -> list string -> list vec -> list meta -> exn + S;
  vs_query : S -> list vec -> Z -> exn + query_result
}.

(** A recommendation dict [{title, url, source, score}]. *)
Record recommendation := mkRec {
  r_title : string;
  r_url : string;
  r_source : string;
  r_score : Q
}.

(** Python's [round(x, 3)]: nearest multiple of 1/1000, ties to even,
    computed exactly on rationals.  Python rounds the double [fl(1 - d)]
    and returns the double nearest to the decimal result, so exact
    values of a score do not carry over; what the development uses is
    that the rounding is monotone, which holds for both. *)
Definition round_half_even (x : Q) : Z :=
  let f := Qfloor x in
  match Qcompare (x - inject_Z f) (1 # 2) with
  | Lt => f
  | Gt => (f + 1)%Z
  | Eq => if Z.even f then f else (f + 1)%Z
  end.

Definition round3 (x : Q) : Q := Qmake (round_half_even (x * 1000)) 1000%positive.

(** The value a Python function returns. *)
Inductive pyobj :=
| PyNone
| PyInt (z : Z).

(** ** The process state and the service monad *)

(** What the module touches: the collection, the batches handed to the
    encoder (one entry per [model.encode] call) and the [print]ed
    "Stored n articles" lines. *)
Record world (St : Type) := mkWorld {
  w_store : St;
  w_encoded : list (list string);
  w_printed : list nat
}.
Arguments mkWorld {St}.
Arguments w_store {St}.
Arguments w_encoded {St}.
Arguments w_printed {St}.

(** Python's metadata of one stored article. *)
Definition source_name (a : article) : string :=
  match a_source a with
  | Some (SDict (Some v)) => py_str v
  | _ => "Unknown"
  end.

Definition article_meta (a : article) : meta :=
  [("title", get_str (a_title a) "");
   ("url", get_str (a_url a) "");
   ("source", source_name a)].

(** The [for i, article in enumerate(articles)] loop of [store_articles]:
    [ids], [documents] and [metadatas] of the records with non-empty text. *)
Fixpoint collect (arts : list article) (i : nat)
  : list string * list string * list meta :=
  match arts with
  | [] => ([], [], [])
  | a :: r =>
      let '(ids, docs, ms) := collect r (S i) in
      let t := derived_text a in
      if String.eqb t "" then (ids, docs, ms)
      else (str_nat i :: ids, t :: docs, article_meta a :: ms)
  end.

(** One entry of the result loop of [get_recommendations]. *)
Definition to_rec (m : meta) (d : Q) : recommendation :=
  mkRec (meta_get m "title" "Unknown") (meta_get m "url" "")
        (meta_get m "source" "Unknown") (round3 (1 - d)).

(** [for i, metadata in enumerate(res_metadatas[0])]: [None] entries are
    skipped, [res_distances[0][i]] raises [IndexError] when out of range. *)
Fixpoint build_recs (ms : list (option meta)) (ds : list Q) (i : nat)
  : exn + list recommendation :=
  match ms with
  | [] => inr []
  | None :: r => build_recs r ds (S i)
  | Some m :: r =>
      match nth_error ds i with
      | None => inl IndexError
      | Some d =>
          match build_recs r ds (S i) with
          | inl e => inl e
          | inr l => inr (to_rec m d :: l)
          end
      end
  end.

Section Service.

Context {St : Type} `{VectorStore St}.

(** [model.encode(texts).tolist()]; [None] when the model raises. *)
Variable encode : list string -> option (list vec).

Definition M (A : Type) := world St -> (exn + A) * world St.

Definition ret {A} (x : A) : M A := fun w => (inr x, w).

Definition bind {A B} (m : M A) (k : A -> M B) : M B :=
  fun w => match m w with
           | (inl e, w') => (inl e, w')
           | (inr x, w') => k x w'
           end.

Local Notation "x <- m ;; k" := (bind m (fun x => k))
  (at level 61, m at next level, right associativity).
Local Notation "m ;;; k" := (bind m (fun _ => k))
  (at level 61, right associativity).

Definition raise_sum {A} (r : exn + A) : M A := fun w => (r, w).

Definition count_m : M Z := fun w => (inr (vs_count (w_store w)), w).

Definition encode_m (docs : list string) : M (list vec) :=
  fun w =>
    let w' := mkWorld (w_store w) (w_encoded w ++ [docs]) (w_printed w) in
    match encode docs with
    | Some e => (inr e, w')
    | None => (inl EncoderError, w')
    end.

Definition add_m (ids docs : list string) (embs : list vec) (ms : list meta)
  : M unit :=
  fun w =>
    match vs_add (w_store w) ids docs embs ms with
    | inl e => (inl e, w)
    | inr s' => (inr tt, mkWorld s' (w_encoded w) (w_printed w))
    end.

Definition query_m (embs : list vec) (n : Z) : M query_result :=
  fun w => (vs_query (w_store w) embs n, w).

Definition print_stored (n : nat) : M unit :=
  fun w => (inr tt, mkWorld (w_store w) (w_encoded w) (w_printed w ++ [n])).

(** [store_articles(articles)]. *)
Definition store_articles (arts : list article) : M pyobj :=
  match arts with
  | [] => ret PyNone
  | _ :: _ =>
      let '(ids, docs, ms) := collect arts 0 in
      match ids with
      | [] => ret PyNone
      | _ :: _ =>
          embs <- encode_m docs ;;
          add_m ids docs embs ms ;;;
          print_stored (List.length ids) ;;;
          ret PyNone
      end
  end.

(** The part of [get_recommendations] after [collection.query]. *)
Definition read_results (res : query_result) : exn + list recommendation :=
  match qr_metadatas res, qr_distances res with
  | Some (ms :: _), Some (ds :: _) => build_recs ms ds 0
  | _, _ => inr []
  end.

(** [get_recommendations(query_text, top_k)]. *)
Definition get_recommendations (query_text : string) (top_k : Z)
  : M (list recommendation) :=
  c <- count_m ;;
  if Z.eqb c 0 then ret [] else
  qe <- encode_m [query_text] ;;
  c2 <- count_m ;;
  res <- query_m qe (Z.min top_k c2) ;;
  raise_sum (read_results res).

End Service.

(** ** An exact, brute-force collection in the default "l2" space *)

Module FlatStore.

Record entry := mkEntry {
  e_id : string;
  e_doc : string;
  e_emb : vec;
  e_meta : option meta
}.

Definition t := list entry.

(** Squared Euclidean distance, ChromaDB's "l2" space. *)
Fixpoint l2sq (a b : vec) : Q :=
  match a, b with
  | x :: a', y :: b' => (x - y) * (x - y) + l2sq a' b'
  | _, _ => 0
  end.

Definition count (s : t) : Z := Z.of_nat (List.length s).

Definition mem_id (s : t) (id : string) : bool :=
  existsb (fun e => String.eqb (e_id e) id) s.

(** A record whose id is already stored is left out (ChromaDB's
    "Add of existing embedding ID" warning). *)
Fixpoint add_all (s : t) (ids docs : list string) (embs : list vec)
  (ms : list meta) : t :=
  match ids, docs, embs, ms with
  | i :: ids', d :: docs', v :: embs', m :: ms' =>
      let s' := if mem_id s i then s else (s ++ [mkEntry i d v (Some m)])%list in
      add_all s' ids' docs' embs' ms'
  | _, _, _, _ => s
  end.

Definition add (s : t) (ids docs : list string) (embs : list vec)
  (ms : list meta) : exn + t :=
  let n := List.length ids in
  if (Nat.eqb (List.length docs) n && Nat.eqb (List.length embs) n
      && Nat.eqb (List.length ms) n)%bool
  then inr (add_all s ids docs embs ms)
  else inl (StoreError "Unequal lengths for fields").

(** Stable insertion by distance: an entry goes after the ones at the
    same distance. *)
Fixpoint insert_by_dist (x : entry * Q) (l : list (entry * Q))
  : list (entry * Q) :=
  match l with
  | [] => [x]
  | y :: l' =>
      if Qle_bool (snd y) (snd x) then y :: insert_by_dist x l'
      else x :: l
  end.

Definition sort_by_dist (l : list (entry * Q)) : list (entry * Q) :=
  fold_left (fun acc x => insert_by_dist x acc) l [].

Definition nearest (s : t) (q : vec) (n : Z) : list (entry * Q) :=
  firstn (Z.to_nat n) (sort_by_dist (map (fun e => (e, l2sq q (e_emb e))) s)).

Definition query (s : t) (qs : list vec) (n : Z) : exn + query_result :=
  if Z.leb n 0
  then inl (StoreError "Number of requested results cannot be negative, or zero.")
  else
    let rs := map (fun q => nearest s q n) qs in
    inr (mkQR (Some (map (map (fun p => e_meta (fst p))) rs))
              (Some (map (map snd) rs))).

End FlatStore.

#[export] Instance flat_store : VectorStore FlatStore.t := {
  vs_count := FlatStore.count;
  vs_add := FlatStore.add;
  vs_query := FlatStore.query
}.

(** A small deterministic encoder used to run the service on concrete
    inputs: two-dimensional unit vectors for the demo texts. *)
Definition toy_vec (s : string) : vec :=
  if String.eqb s "AI language models" then [1; 0]
  else if String.eqb s "cricket sports" then [0; 1]
  else if String.eqb s "Gemini AI model" then [1; 0]
  else if String.eqb s "Cricket World Cup" then [0; 1]
  else [3 # 5; 4 # 5].

Definition toy_encode (docs : list string) : option (list vec) :=
  Some (map toy_vec docs).

Definition art (t d : string) : article :=
  mkArticle (Some (FStr t)) (Some (FStr d)) (Some (FStr "https://example.com"))
            (Some (SDict (Some (FStr "Wire")))).

(** ["\u00a0Gemini"] and [" AI\u0085"]: a title led by a no-break space
    and a description ended by a next-line character. *)
Definition nbsp_gemini : string := String (ascii_of_nat 160) "Gemini".

Definition ai_nel : string := " AI" ++ String (ascii_of_nat 133) "".

Definition empty_world : world FlatStore.t := mkWorld [] [] [].

(** The demo corpus of the module, reduced to two articles. *)
Definition demo_articles : list article :=
  [art "Gemini AI" "model"; art "" ""; art "Cricket World" "Cup"].

Definition demo_world : world FlatStore.t :=
  snd (store_articles toy_encode demo_articles empty_world).

(** A collection holding one article of this module and one record
    without metadata. *)
Definition sparse_world : world FlatStore.t :=
  mkWorld [FlatStore.mkEntry "0" "Gemini AI model" [1; 0] None;
           FlatStore.mkEntry "1" "Cricket World Cup" [0; 1]
             (Some [("title", "Cricket World")])] [] [].

(** An encoder that raises on every call. *)
Definition failing_encode (docs : list string) : option (list vec) := None.

(** One stored article whose embedding is orthogonal to the query's. *)
Definition cricket_world : world FlatStore.t :=
  snd (store_articles toy_encode [art "Cricket World" "Cup"] empty_world).

(** ** Reading of the claims *)

Definition has_text (a : article) : bool := negb (String.eqb (derived_text a) "").

(** The number of records with non-empty derived text. *)
Definition count_nonempty (arts : list article) : nat :=
  List.length (filter has_text arts).

(** The documents [store_articles] hands to the encoder. *)
Definition collected_docs (arts : list article) : list string :=
  let '(_, docs, _) := collect arts 0 in docs.

(** The recommendations the claim expects from aligned store results:
    entries without metadata dropped, the others with their defaults. *)
Fixpoint present (ps : list (option meta * Q)) : list recommendation :=
  match ps with
  | [] => []
  | (None, _) :: r => present r
  | (Some m, d) :: r =>
      mkRec (meta_get m "title" "Unknown") (meta_get m "url" "")
            (meta_get m "source" "Unknown") (round3 (1 - d)) :: present r
  end.

Fixpoint sorted_le (ds : list Q) : bool :=
  match ds with
  | x :: ((y :: _) as r) => Qle_bool x y && sorted_le r
  | _ => true
  end.

(** What ChromaDB's [query] promises for [n_results = n]: at most [n]
    neighbours for the (first) query, a distance for each of them, in
    ascending order of distance. *)
Definition resp_ok (n : Z) (res : query_result) : bool :=
  match qr_metadatas res, qr_distances res with
  | Some (ms :: _), Some (ds :: _) =>
      Z.leb (Z.of_nat (List.length ms)) n
      && Nat.leb (List.length ms) (List.length ds) && sorted_le ds
  | _, _ => true
  end.

Fixpoint dot (a b : vec) : Q :=
  match a, b with
  | x :: a', y :: b' => x * y + dot a' b'
  | _, _ => 0
  end.

(** The spec's cosine similarity, 0 when either norm is 0. *)
Definition cosine_sim (q v : vec) : R :=
  if (Qeq_bool (dot q q) 0 || Qeq_bool (dot v v) 0)%bool then 0%R
  else (Q2R (dot q v) / (sqrt (Q2R (dot q q)) * sqrt (Q2R (dot v v))))%R.

(** Python's [int(s)] on a string of decimal digits. *)
Fixpoint dec_val_aux (v : nat) (s : string) : nat :=
  match s with
  | EmptyString => v
  | String c r => dec_val_aux (10 * v + (nat_of_ascii c - 48)) r
  end.

Definition dec_val (s : string) : nat := dec_val_aux 0 s.

(** The positions [i] of [enumerate(articles)], counted from [i], whose
    record has a non-empty derived text. *)
Fixpoint text_positions (arts : list article) (i : nat) : list nat :=
  match arts with
  | [] => []
  | a :: r => if has_text a then i :: text_positions r (S i)
              else text_positions r (S i)
  end.

(** ** Helper lemmas *)

Lemma collect_spec (arts : list article) (i : nat) :
  let '(ids, docs, ms) := collect arts i in
  List.length ids = count_nonempty arts /\
  docs = map derived_text (filter has_text arts) /\
  List.length ms = count_nonempty arts.
Proof.
  unfold count_nonempty. revert i.
  induction arts as [|a r IH]; intro i; simpl; [auto|].
  specialize (IH (S i)). destruct (collect r (S i)) as [[ids docs] ms].
  destruct IH as (H1 & H2 & H3). unfold has_text in *.
  destruct (String.eqb (derived_text a) "") eqn:E; simpl;
    [auto | rewrite H1, H2, H3; auto].
Qed.

Lemma collect_all_empty (arts : list article) (i : nat) :
  Forall (fun a => derived_text a = "") arts -> collect arts i = ([], [], []).
Proof.
  revert i. induction arts as [|a r IH]; intros i Hall; simpl; [reflexivity|].
  inversion Hall as [|? ? Ha Hr]; subst.
  rewrite (IH (S i) Hr), Ha. reflexivity.
Qed.

Lemma skipn_nth_error (ds : list Q) (i : nat) :
  (i < List.length ds)%nat ->
  exists d, nth_error ds i = Some d /\ skipn i ds = d :: skipn (S i) ds.
Proof.
  revert ds. induction i as [|i IH]; intros [|d ds] Hlt; simpl in *; try lia.
  - eauto.
  - apply IH. lia.
Qed.

(** The result loop equals [present] on the aligned entries. *)
Lemma build_recs_present (ms : list (option meta)) (ds : list Q) (i : nat) :
  (i + List.length ms <= List.length ds)%nat ->
  build_recs ms ds i = inr (present (combine ms (skipn i ds))).
Proof.
  revert i. induction ms as [|m ms IH]; intros i Hlen; simpl in *; [reflexivity|].
  destruct (skipn_nth_error ds i) as (d & Hd & Hs); [lia|].
  rewrite Hs. destruct m as [m|]; simpl.
  - rewrite Hd, IH by lia. reflexivity.
  - apply IH. lia.
Qed.

Lemma present_length (ps : list (option meta * Q)) :
  (List.length (present ps) <= List.length ps)%nat.
Proof.
  induction ps as [|[[m|] d] ps IH]; simpl; lia.
Qed.

Lemma present_in (ps : list (option meta * Q)) (x : recommendation) :
  In x (present ps) ->
  exists m d, In (Some m, d) ps /\ r_score x = round3 (1 - d).
Proof.
  induction ps as [|[[m|] d] ps IH]; simpl; [tauto| |].
  - intros [<-|Hx]; [eauto|].
    destruct (IH Hx) as (m' & d' & Hin & Hs). eauto.
  - intros Hx. destruct (IH Hx) as (m' & d' & Hin & Hs). eauto.
Qed.

(** Python's [round] is monotone. *)
Lemma round_half_even_mono (a b : Q) :
  a <= b -> (round_half_even a <= round_half_even b)%Z.
Proof.
  intros Hab. unfold round_half_even.
  pose proof (Qfloor_resp_le a b Hab) as Hf.
  set (fa := Qfloor a) in *. set (fb := Qfloor b) in *.
  destruct (Z.eq_dec fa fb) as [Heq|Hne].
  - rewrite <- Heq in *.
    assert (Hr : a - inject_Z fa <= b - inject_Z fa).
    { apply Qplus_le_compat; [exact Hab | apply Qle_refl]. }
    destruct (Qcompare_spec (a - inject_Z fa) (1 # 2)) as [Ea|Ea|Ea];
    destruct (Qcompare_spec (b - inject_Z fa) (1 # 2)) as [Eb|Eb|Eb];
    try (destruct (Z.even fa)); try lia; exfalso; lra.
  - assert (fa < fb)%Z by lia.
    destruct (Qcompare (a - inject_Z fa) (1 # 2));
    destruct (Qcompare (b - inject_Z fb) (1 # 2));
    try (destruct (Z.even fa)); try (destruct (Z.even fb)); lia.
Qed.

Lemma round3_mono (x y : Q) : x <= y -> round3 x <= round3 y.
Proof.
  intros Hxy. unfold round3, Qle; simpl.
  assert (x * 1000 <= y * 1000) as H1000.
  { apply Qmult_le_compat_r; [exact Hxy | discriminate]. }
  pose proof (round_half_even_mono _ _ H1000). nia.
Qed.

Lemma sorted_le_sorted (ds : list Q) : sorted_le ds = true -> Sorted Qle ds.
Proof.
  intros Hs. apply Sorted_LocallySorted_iff.
  induction ds as [|x [|y ds] IH]; simpl in *; constructor.
  - apply andb_true_iff in Hs as [Hxy Hs]. apply IH, Hs.
  - apply andb_true_iff in Hs as [Hxy _]. apply Qle_bool_iff, Hxy.
Qed.

Lemma combine_sorted (ms : list (option meta)) (ds : list Q) :
  StronglySorted Qle ds ->
  StronglySorted (fun a b => snd a <= snd b) (combine ms ds).
Proof.
  revert ds. induction ms as [|m ms IH]; intros [|d ds] Hs; simpl;
    try (constructor; fail).
  inversion Hs as [|? ? Hs' Hall]; subst.
  constructor; [apply IH, Hs'|].
  apply Forall_forall. intros [m' d'] Hin. simpl.
  apply in_combine_r in Hin. rewrite Forall_forall in Hall. apply Hall, Hin.
Qed.

Lemma present_sorted (ps : list (option meta * Q)) :
  StronglySorted (fun a b => snd a <= snd b) ps ->
  StronglySorted (fun x y => r_score y <= r_score x) (present ps).
Proof.
  induction ps as [|[[m|] d] ps IH]; intros Hs; simpl; [constructor| |];
    inversion Hs as [|? ? Hs' Hall]; subst; [|apply IH, Hs'].
  constructor; [apply IH, Hs'|].
  apply Forall_forall. intros x Hx. simpl.
  destruct (present_in ps x Hx) as (m' & d' & Hin & ->).
  rewrite Forall_forall in Hall. specialize (Hall _ Hin). simpl in Hall.
  apply round3_mono. lra.
Qed.

(** The exact store keeps ChromaDB's promise [resp_ok] on every state. *)
(** The collection's query refuses a non-positive [n_results]. *)
Lemma FlatStore_query_rejects (s : FlatStore.t) (qs : list vec) (n : Z) :
  (n <= 0)%Z ->
  exists msg, FlatStore.query s qs n = inl (StoreError msg).
Proof.
  intros Hn. unfold FlatStore.query.
  rewrite (proj2 (Z.leb_le n 0) Hn). eexists. reflexivity.
Qed.

Section FlatStoreQuery.

Let Rd (a b : FlatStore.entry * Q) : Prop := snd a <= snd b.

Lemma insert_by_dist_sorted (x : FlatStore.entry * Q) l :
  Sorted Rd l -> Sorted Rd (FlatStore.insert_by_dist x l).
Proof.
  induction l as [|y l IH]; intros Hs; simpl; [repeat constructor|].
  destruct (Qle_bool (snd y) (snd x)) eqn:E.
  - apply Qle_bool_iff in E. inversion Hs as [|? ? Hl Hhd]; subst.
    constructor; [apply IH, Hl|].
    destruct l as [|z l']; simpl; [constructor; exact E|].
    destruct (Qle_bool (snd z) (snd x)); constructor;
      [inversion Hhd; assumption | exact E].
  - constructor; [exact Hs|]. constructor. unfold Rd.
    apply Qlt_le_weak, Qnot_le_lt. intros Hle.
    apply Qle_bool_iff in Hle. congruence.
Qed.

Lemma sort_by_dist_sorted l : Sorted Rd (FlatStore.sort_by_dist l).
Proof.
  unfold FlatStore.sort_by_dist.
  assert (Hgen : forall acc, Sorted Rd acc ->
    Sorted Rd (fold_left (fun acc x => FlatStore.insert_by_dist x acc) l acc)).
  { induction l as [|x l IH]; intros acc Hacc; simpl; [exact Hacc|].
    apply IH, insert_by_dist_sorted, Hacc. }
  apply Hgen. constructor.
Qed.

Lemma firstn_sorted {A} (R : A -> A -> Prop) (k : nat) (l : list A) :
  Sorted R l -> Sorted R (firstn k l).
Proof.
  revert k. induction l as [|a l IH]; intros [|k] Hs; simpl;
    try (constructor; fail).
  inversion Hs as [|? ? Hl Hhd]; subst. constructor; [apply IH, Hl|].
  destruct k as [|k]; destruct l as [|b l]; simpl; try constructor.
  inversion Hhd; assumption.
Qed.

Lemma map_snd_sorted (l : list (FlatStore.entry * Q)) :
  Sorted Rd l -> Sorted Qle (map snd l).
Proof.
  induction l as [|a l IH]; intros Hs; simpl; [constructor|].
  inversion Hs as [|? ? Hl Hhd]; subst. constructor; [apply IH, Hl|].
  destruct l as [|b l]; simpl; constructor. inversion Hhd; assumption.
Qed.

Lemma sorted_le_complete (ds : list Q) : Sorted Qle ds -> sorted_le ds = true.
Proof.
  intros Hs. apply Sorted_LocallySorted_iff in Hs.
  induction Hs as [|x|x y ds Hs IH Hxy]; simpl; [reflexivity | reflexivity|].
  apply andb_true_iff. split; [apply Qle_bool_iff, Hxy | exact IH].
Qed.

Lemma FlatStore_query_ok (s : FlatStore.t) (qe : list vec) (n : Z) :
  (0 < n)%Z ->
  exists res, FlatStore.query s qe n = inr res /\ resp_ok n res = true.
Proof.
  intros Hn. unfold FlatStore.query.
  replace (Z.leb n 0) with false by (symmetry; apply Z.leb_gt; lia).
  eexists. split; [reflexivity|]. unfold resp_ok. simpl.
  destruct qe as [|q qe]; simpl; [reflexivity|].
  rewrite !length_map.
  apply andb_true_iff; split; [apply andb_true_iff; split|].
  - apply Z.leb_le. unfold FlatStore.nearest. rewrite length_firstn. lia.
  - apply Nat.leb_refl.
  - apply sorted_le_complete, map_snd_sorted, firstn_sorted, sort_by_dist_sorted.
Qed.

End FlatStoreQuery.

Section Facts.

Context {St : Type} `{VectorStore St}.
Variable encode : list string -> option (list vec).

Lemma get_recommendations_count0 (q : string) (k : Z) (w : world St) :
  vs_count (w_store w) = 0%Z -> get_recommendations encode q k w = (inr [], w).
Proof.
  intros Hc. unfold get_recommendations, bind, count_m. rewrite Hc. reflexivity.
Qed.

Lemma get_recommendations_unfold (q : string) (k : Z) (w : world St)
  (qe : list vec) :
  vs_count (w_store w) <> 0%Z -> encode [q] = Some qe ->
  get_recommendations encode q k w =
  (match vs_query (w_store w) qe (Z.min k (vs_count (w_store w))) with
   | inl e => inl e
   | inr res => read_results res
   end, mkWorld (w_store w) (w_encoded w ++ [[q]])%list (w_printed w)).
Proof.
  intros Hc Henc. unfold get_recommendations, bind, count_m, encode_m, query_m.
  apply Z.eqb_neq in Hc. simpl. rewrite Hc, Henc. simpl.
  destruct (vs_query (w_store w) qe _); reflexivity.
Qed.

End Facts.

(** ** The claims *)

Section Claims.

Context {St : Type} `{VectorStore St}.
Variable encode : list string -> option (list vec).

(** C6: on an index with zero stored articles, [get_recommendations]
    returns the empty list, not a failure, and leaves the world as it
    was: in particular no batch is handed to the encoder. *)
Theorem get_recommendations_empty_corpus (q : string) (k : Z) (w : world St) :
  vs_count (w_store w) = 0%Z ->
  get_recommendations encode q k w = (inr [], w).
Proof.
  apply get_recommendations_count0.
Qed.

(** C7 (amended): when every record's derived text is empty,
    [store_articles] returns [None], calls no encoder, stores nothing and
    prints nothing. *)
Theorem store_articles_nothing_to_store (arts : list article) (w : world St) :
  Forall (fun a => derived_text a = "") arts ->
  store_articles encode arts w = (inr PyNone, w).
Proof.
  intros Hall. destruct arts as [|a r]; [reflexivity|].
  unfold store_articles. rewrite collect_all_empty by exact Hall. reflexivity.
Qed.

(** C8: when the encoder raises on the batch of derived texts, the
    exception reaches the caller of [store_articles]; the collection and
    the printed output are unchanged (only the failed encoder call is
    recorded). *)
Theorem store_articles_encoder_failure (arts : list article) (w : world St) :
  collected_docs arts <> [] ->
  encode (collected_docs arts) = None ->
  store_articles encode arts w =
    (inl EncoderError,
     mkWorld (w_store w) (w_encoded w ++ [collected_docs arts])%list
       (w_printed w)).
Proof.
  intros Hne Hfail. unfold collected_docs in *.
  pose proof (collect_spec arts 0) as Hc.
  destruct arts as [|a r]; [simpl in Hne; congruence|].
  unfold store_articles.
  destruct (collect (a :: r) 0) as [[ids docs] ms]. destruct Hc as (H1 & H2 & H3).
  destruct ids as [|i ids].
  - exfalso. apply Hne. rewrite H2. unfold count_nonempty in H1.
    destruct (filter has_text (a :: r)) eqn:E; [reflexivity|].
    discriminate H1.
  - unfold bind, encode_m. rewrite Hfail. reflexivity.
Qed.

(** C3 (amended): whenever [store_articles] returns, it returns [None];
    the number of records with non-empty derived text is only printed
    ("Stored n articles"), and only when it is not zero. *)
Theorem store_articles_returns_none (arts : list article) (w w' : world St)
  (v : pyobj) :
  store_articles encode arts w = (inr v, w') ->
  v = PyNone /\
  w_printed w' = (w_printed w ++
    (if Nat.eqb (count_nonempty arts) 0 then [] else [count_nonempty arts]))%list.
Proof.
  intros Hrun. destruct arts as [|a r].
  - simpl in Hrun. inversion Hrun; subst. rewrite app_nil_r. auto.
  - pose proof (collect_spec (a :: r) 0) as Hc. unfold store_articles in Hrun.
    destruct (collect (a :: r) 0) as [[ids docs] ms]. destruct Hc as (H1 & H2 & H3).
    destruct ids as [|i ids].
    + inversion Hrun; subst. simpl in H1. rewrite <- H1. simpl.
      rewrite app_nil_r. auto.
    + unfold bind, encode_m, add_m, print_stored, ret in Hrun.
      destruct (encode docs); [|discriminate]. simpl in Hrun.
      destruct (vs_add _ _ _ _ _); [discriminate|].
      inversion Hrun; subst. rewrite <- H1. auto.
Qed.

(** C4 (amended): [get_recommendations] does not check [top_k] itself.
    For [top_k <= 0], an empty index gives the empty list, with no error
    and no encoder call.  On a non-empty index the call raises: with the
    encoder's error when encoding fails, and otherwise with the error of
    the collection's query, which receives [top_k] unchanged as
    [n_results] and, as ChromaDB's does, rejects a non-positive
    [n_results]. *)
Theorem get_recommendations_top_k_nonpositive (q : string) (k : Z)
  (w : world St) :
  (k <= 0)%Z ->
  (forall qs n, (n <= 0)%Z ->
   exists msg, vs_query (w_store w) qs n = inl (StoreError msg)) ->
  (vs_count (w_store w) = 0%Z ->
   get_recommendations encode q k w = (inr [], w)) /\
  ((0 < vs_count (w_store w))%Z ->
   (encode [q] = None ->
    fst (get_recommendations encode q k w) = inl EncoderError) /\
   (forall qe, encode [q] = Some qe ->
    exists msg,
      vs_query (w_store w) qe k = inl (StoreError msg) /\
      get_recommendations encode q k w =
        (inl (StoreError msg),
         mkWorld (w_store w) (w_encoded w ++ [[q]])%list (w_printed w)))).
Proof.
  intros Hk Hrej. split; [apply get_recommendations_count0|].
  intros Hc. split.
  - intros Hnone. unfold get_recommendations, bind, count_m, encode_m.
    cbn. replace (Z.eqb (vs_count (w_store w)) 0) with false
      by (symmetry; apply Z.eqb_neq; lia).
    rewrite Hnone. reflexivity.
  - intros qe Henc. destruct (Hrej qe k Hk) as [msg Hmsg].
    exists msg. split; [exact Hmsg|].
    rewrite (get_recommendations_unfold encode q k w qe) by (lia || exact Henc).
    rewrite Z.min_l by lia. rewrite Hmsg. reflexivity.
Qed.

(** C10: when the collection's answer carries a distance for each
    returned metadata, the result is [present] of the aligned pairs:
    entries whose metadata is [None] are dropped without error, the others
    become [{title, url, source, score}] with defaults "Unknown", "" and
    "Unknown". *)
Theorem get_recommendations_skips_missing_metadata (q : string) (k : Z)
  (w : world St) (qe : list vec) (res : query_result)
  (ms : list (option meta)) (mss : list (list (option meta)))
  (ds : list Q) (dss : list (list Q)) :
  vs_count (w_store w) <> 0%Z -> encode [q] = Some qe ->
  vs_query (w_store w) qe (Z.min k (vs_count (w_store w))) = inr res ->
  qr_metadatas res = Some (ms :: mss) -> qr_distances res = Some (ds :: dss) ->
  (List.length ms <= List.length ds)%nat ->
  fst (get_recommendations encode q k w) = inr (present (combine ms ds)).
Proof.
  intros Hc Henc Hq Hm Hd Hlen.
  rewrite (get_recommendations_unfold encode q k w qe Hc Henc), Hq. simpl.
  unfold read_results. rewrite Hm, Hd.
  apply build_recs_present. simpl. lia.
Qed.

(** C2: for [top_k > 0], provided the collection answers its query as
    ChromaDB promises ([resp_ok]), [get_recommendations] does not fail,
    returns at most [min(top_k, count())] recommendations, and their
    scores are in non-increasing order. *)
Theorem get_recommendations_clamped_sorted (q : string) (k : Z)
  (w : world St) (qe : list vec) :
  (0 < k)%Z -> (0 <= vs_count (w_store w))%Z -> encode [q] = Some qe ->
  (vs_count (w_store w) <> 0%Z ->
   exists res,
     vs_query (w_store w) qe (Z.min k (vs_count (w_store w))) = inr res /\
     resp_ok (Z.min k (vs_count (w_store w))) res = true) ->
  exists l,
    fst (get_recommendations encode q k w) = inr l /\
    (Z.of_nat (List.length l) <= Z.min k (vs_count (w_store w)))%Z /\
    StronglySorted (fun x y => r_score y <= r_score x) l.
Proof.
  intros Hk Hc0 Henc Hq.
  destruct (Z.eq_dec (vs_count (w_store w)) 0) as [Hc|Hc].
  - rewrite get_recommendations_count0 by exact Hc. exists []. simpl.
    split; [reflexivity|]. split; [lia | constructor].
  - destruct (Hq Hc) as (res & Hres & Hok).
    rewrite (get_recommendations_unfold encode q k w qe Hc Henc), Hres. simpl.
    unfold read_results. unfold resp_ok in Hok.
    destruct (qr_metadatas res) as [[|ms mss]|];
      destruct (qr_distances res) as [[|ds dss]|];
      try (exists []; split; [reflexivity | split; [simpl; lia | constructor]]).
    apply andb_true_iff in Hok as [Hok Hsorted].
    apply andb_true_iff in Hok as [Hn Hlen].
    apply Z.leb_le in Hn. apply Nat.leb_le in Hlen.
    rewrite build_recs_present by (simpl; lia). simpl.
    eexists. split; [reflexivity|]. split.
    + pose proof (present_length (combine ms ds)) as Hp.
      rewrite length_combine in Hp. lia.
    + apply present_sorted, combine_sorted.
      apply Sorted_StronglySorted; [exact Qle_trans|].
      apply sorted_le_sorted, Hsorted.
Qed.

End Claims.

(** ** Runs on concrete inputs *)

(** C1 (code bug): the collection is created without a distance space, so
    ChromaDB ranks by squared Euclidean distance and the score
    [round(1 - distance, 3)] is not the cosine similarity. For a stored
    article and a query whose (unit) embeddings are orthogonal the module
    reports -1.0, while their cosine similarity is 0. *)
Theorem get_recommendations_score_is_not_cosine :
  toy_vec "AI language models" = [1; 0] /\
  toy_vec "Cricket World Cup" = [0; 1] /\
  (exists r,
     fst (get_recommendations toy_encode "AI language models" 5 cricket_world)
       = inr [r] /\ r_score r == -1) /\
  cosine_sim [1; 0] [0; 1] = 0%R.
Proof.
  split; [reflexivity|]. split; [reflexivity|]. split.
  - eexists. split; [vm_compute; reflexivity | reflexivity].
  - unfold cosine_sim. simpl.
    unfold Rdiv, Q2R. simpl. rewrite !Rmult_0_l. reflexivity.
Qed.

(** C2: a run on the demo corpus, [top_k] above the number of stored
    articles. *)
Lemma get_recommendations_clamped_sorted_witness :
  exists l,
    fst (get_recommendations toy_encode "AI language models" 5 demo_world)
      = inr l /\
    (Z.of_nat (List.length l) <= Z.min 5 (vs_count (w_store demo_world)))%Z /\
    StronglySorted (fun x y => r_score y <= r_score x) l.
Proof.
  apply (get_recommendations_clamped_sorted toy_encode "AI language models" 5
           demo_world [[1; 0]]).
  - reflexivity.
  - vm_compute. discriminate.
  - reflexivity.
  - intros _.
    exists (match FlatStore.query (w_store demo_world) [[1; 0]] 2 with
            | inr r => r
            | inl _ => mkQR None None
            end).
    split; vm_compute; reflexivity.
Defined.

(** C3: one article is stored, and [store_articles] returns [None], not
    a count. *)
Lemma store_articles_returns_no_count :
  vs_count (w_store (snd (store_articles toy_encode
                           [art "Gemini AI" "model"] empty_world))) = 1%Z /\
  fst (store_articles toy_encode [art "Gemini AI" "model"] empty_world)
    <> inr (PyInt 1).
Proof.
  split; [vm_compute; reflexivity | vm_compute; discriminate].
Qed.

Lemma store_articles_returns_none_witness :
  store_articles toy_encode demo_articles empty_world = (inr PyNone, demo_world) /\
  (PyNone = PyNone /\
   w_printed demo_world = (w_printed empty_world ++
     (if Nat.eqb (count_nonempty demo_articles) 0 then []
      else [count_nonempty demo_articles]))%list).
Proof.
  split; [vm_compute; reflexivity|].
  apply (store_articles_returns_none toy_encode demo_articles empty_world
           demo_world PyNone).
  vm_compute. reflexivity.
Defined.

(** C4: [top_k = 0] on an empty index is answered with an empty list,
    not rejected. *)
Lemma get_recommendations_top_k_zero_not_rejected :
  get_recommendations toy_encode "AI language models" 0 empty_world
    = (inr [], empty_world).
Proof.
  vm_compute. reflexivity.
Qed.

Lemma get_recommendations_top_k_nonpositive_witness :
  (0 < vs_count (w_store demo_world))%Z /\
  exists msg,
    get_recommendations toy_encode "AI language models" 0 demo_world =
      (inl (StoreError msg),
       mkWorld (w_store demo_world)
         (w_encoded demo_world ++ [["AI language models"]])%list
         (w_printed demo_world)).
Proof.
  split; [vm_compute; reflexivity|].
  destruct (get_recommendations_top_k_nonpositive toy_encode
              "AI language models" 0 demo_world) as [_ H2].
  - lia.
  - intros qs n Hn. exact (FlatStore_query_rejects (w_store demo_world) qs n Hn).
  - destruct (proj2 (H2 ltac:(vm_compute; reflexivity)) [[1; 0]] eq_refl)
      as (msg & _ & Hg).
    exists msg. exact Hg.
Defined.

Lemma get_recommendations_empty_corpus_witness :
  vs_count (w_store empty_world) = 0%Z /\
  get_recommendations toy_encode "AI language models" 5 empty_world
    = (inr [], empty_world).
Proof.
  split; [reflexivity|].
  apply (get_recommendations_empty_corpus toy_encode). reflexivity.
Defined.

(** C7: a batch of records without text gives [None], not 0. *)
Lemma store_articles_empty_batch_not_zero :
  fst (store_articles toy_encode [mkArticle None None None None] empty_world)
    <> inr (PyInt 0).
Proof.
  vm_compute. discriminate.
Qed.

Lemma store_articles_nothing_to_store_witness :
  Forall (fun a => derived_text a = "")
    [mkArticle None None None None; art "" "";
     mkArticle (Some (FStr "  ")) None (Some (FStr "u")) None] /\
  store_articles toy_encode
    [mkArticle None None None None; art "" "";
     mkArticle (Some (FStr "  ")) None (Some (FStr "u")) None] demo_world
    = (inr PyNone, demo_world).
Proof.
  split; [repeat constructor|].
  apply (store_articles_nothing_to_store toy_encode).
  repeat constructor.
Defined.

Lemma store_articles_encoder_failure_witness :
  collected_docs [art "Gemini AI" "model"] = ["Gemini AI model"] /\
  store_articles failing_encode [art "Gemini AI" "model"] demo_world =
    (inl EncoderError,
     mkWorld (w_store demo_world)
       (w_encoded demo_world ++ [collected_docs [art "Gemini AI" "model"]])%list
       (w_printed demo_world)).
Proof.
  split; [vm_compute; reflexivity|].
  apply (store_articles_encoder_failure failing_encode).
  - vm_compute. discriminate.
  - reflexivity.
Defined.

(** C10: one of the two neighbours has no metadata; one recommendation
    comes back, with the defaults for url and source. *)
Lemma get_recommendations_skips_missing_metadata_witness :
  fst (get_recommendations toy_encode "AI language models" 5 sparse_world)
    = inr (present (combine [None; Some [("title", "Cricket World")]] [0; 2])) /\
  present (combine [None; Some [("title", "Cricket World")]] [0; 2])
    = [mkRec "Cricket World" "" "Unknown" (round3 (1 - 2))] /\
  (1 < Z.min 5 (vs_count (w_store sparse_world)))%Z.
Proof.
  split; [|split; [reflexivity | vm_compute; reflexivity]].
  apply (get_recommendations_skips_missing_metadata toy_encode
           "AI language models" 5 sparse_world [[1; 0]]
           (mkQR (Some [[None; Some [("title", "Cricket World")]]])
                 (Some [[0; 2]]))
           [None; Some [("title", "Cricket World")]] [] [0; 2] []).
  - vm_compute. discriminate.
  - reflexivity.
  - vm_compute. reflexivity.
  - reflexivity.
  - reflexivity.
  - simpl. lia.
Defined.

(** ** Further properties of the module *)

Open Scope list_scope.

Definition ws (c : ascii) : Prop := is_ws c = true.

Lemma lstrip_split (l : list ascii) :
  exists p, l = p ++ lstrip_list l /\ Forall ws p.
Proof.
  induction l as [|c l IH]; simpl; [exists []; auto|].
  destruct (is_ws c) eqn:E.
  - destruct IH as (p & Hp & Hw). exists (c :: p). simpl. rewrite <- Hp. auto.
  - exists []. auto.
Qed.

Lemma lstrip_head (l : list ascii) :
  match lstrip_list l with [] => True | c :: _ => is_ws c = false end.
Proof.
  induction l as [|c l IH]; simpl; [exact I|].
  destruct (is_ws c) eqn:E; [exact IH | exact E].
Qed.

Lemma lstrip_nil_iff (l : list ascii) : lstrip_list l = [] <-> Forall ws l.
Proof.
  induction l as [|c l IH]; simpl; [split; auto|].
  unfold ws at 1. destruct (is_ws c) eqn:E.
  - rewrite IH. split; [auto | intros Hf; inversion Hf; auto].
  - split; [discriminate | intros Hf; inversion Hf; congruence].
Qed.

Lemma strip_empty_iff (s : string) :
  strip s = "" <-> Forall ws (list_ascii_of_string s).
Proof.
  unfold strip. set (l := list_ascii_of_string s).
  rewrite <- lstrip_nil_iff.
  assert (Hs : forall x, string_of_list_ascii x = "" <-> x = []).
  { intros [|c x]; simpl; split; congruence. }
  rewrite Hs. split; intros Hl.
  - apply (f_equal (@rev ascii)) in Hl. rewrite rev_involutive in Hl.
    simpl in Hl. apply lstrip_nil_iff in Hl.
    pose proof (lstrip_head l) as Hh. destruct (lstrip_list l) as [|c r];
      [reflexivity|].
    simpl in Hl. apply Forall_app in Hl as [_ Hc]. inversion Hc. congruence.
  - rewrite Hl. reflexivity.
Qed.

Lemma last_suffix (p y : list ascii) (d : ascii) :
  y <> [] -> last (p ++ y) d = last y d.
Proof.
  intros Hy. induction p as [|c p IH]; simpl; [reflexivity|].
  rewrite IH. destruct p; simpl; [destruct y; [congruence | reflexivity]|].
  destruct (p ++ y) eqn:E; [|reflexivity].
  apply app_eq_nil in E as [_ ->]. congruence.
Qed.

Lemma str_append_assoc (a b c : string) :
  (a ++ (b ++ c))%string = ((a ++ b) ++ c)%string.
Proof. induction a as [|x a IH]; simpl; [reflexivity | now rewrite IH]. Qed.

Lemma list_ascii_of_string_app (a b : string) :
  list_ascii_of_string (a ++ b)%string =
  list_ascii_of_string a ++ list_ascii_of_string b.
Proof. induction a as [|x a IH]; simpl; [reflexivity | now rewrite IH]. Qed.

Lemma digits_aux_app (fuel n : nat) (acc : string) :
  digits_aux fuel n acc = (digits_aux fuel n "" ++ acc)%string.
Proof.
  revert n acc. induction fuel as [|f IH]; intros n acc; simpl; [reflexivity|].
  destruct (n <? 10)%nat; [reflexivity|].
  rewrite (IH _ (String _ acc)), (IH _ (String _ "")), <- str_append_assoc.
  reflexivity.
Qed.

Lemma digits_aux_fuel (f1 f2 n : nat) (acc : string) :
  (n < f1)%nat -> (n < f2)%nat -> digits_aux f1 n acc = digits_aux f2 n acc.
Proof.
  revert f2 n acc. induction f1 as [|f1 IH]; intros [|f2] n acc H1 H2; try lia.
  simpl. destruct (n <? 10)%nat eqn:E; [reflexivity|].
  apply Nat.ltb_ge in E.
  pose proof (Nat.div_lt n 10 ltac:(lia) ltac:(lia)) as Hd.
  apply IH; change (fst (Nat.divmod n 9 0 9)) with (n / 10)%nat; lia.
Qed.

Lemma str_nat_step (n : nat) :
  (10 <= n)%nat ->
  str_nat n =
  (str_nat (n / 10) ++ String (ascii_of_nat (48 + n mod 10)) "")%string.
Proof.
  intros Hn. unfold str_nat at 1. cbn [digits_aux].
  replace (n <? 10)%nat with false by (symmetry; apply Nat.ltb_ge; lia).
  cbv beta iota zeta. rewrite digits_aux_app. unfold str_nat. f_equal.
  assert (n / 10 < n)%nat by (apply Nat.div_lt; lia).
  apply digits_aux_fuel; lia.
Qed.

Lemma dec_val_aux_app (v : nat) (a b : string) :
  dec_val_aux v (a ++ b)%string = dec_val_aux (dec_val_aux v a) b.
Proof. revert v. induction a as [|x a IH]; intros v; simpl; auto. Qed.

Lemma digit_val (k : nat) :
  (k < 10)%nat -> (nat_of_ascii (ascii_of_nat (48 + k)) - 48)%nat = k.
Proof. intros Hk. rewrite nat_ascii_embedding by lia. lia. Qed.

(** [int(str(i)) == i]. *)
Lemma dec_val_str_nat (n : nat) : dec_val (str_nat n) = n.
Proof.
  induction n as [n IH] using lt_wf_ind.
  destruct (Nat.lt_ge_cases n 10) as [Hn|Hn].
  - unfold str_nat, dec_val. cbn [digits_aux].
    replace (n <? 10)%nat with true by (symmetry; apply Nat.ltb_lt; lia).
    cbv beta iota zeta. cbn [dec_val_aux].
    rewrite Nat.mod_small by lia. rewrite digit_val by lia. lia.
  - rewrite str_nat_step by exact Hn. unfold dec_val.
    rewrite dec_val_aux_app. fold (dec_val (str_nat (n / 10))).
    rewrite IH by (apply Nat.div_lt; lia). cbn [dec_val_aux].
    rewrite digit_val by (apply Nat.mod_upper_bound; lia).
    pose proof (Nat.div_mod_eq n 10). lia.
Qed.

Lemma collect_ids (arts : list article) (i : nat) :
  fst (fst (collect arts i)) = map str_nat (text_positions arts i).
Proof.
  revert i. induction arts as [|a r IH]; intros i; simpl; [reflexivity|].
  specialize (IH (S i)). destruct (collect r (S i)) as [[ids docs] ms].
  simpl in IH. unfold has_text.
  destruct (String.eqb (derived_text a) ""); simpl; congruence.
Qed.

Lemma text_positions_bound (arts : list article) (i : nat) :
  Forall (fun j => (i <= j)%nat) (text_positions arts i).
Proof.
  revert i. induction arts as [|a r IH]; intros i; simpl; [constructor|].
  specialize (IH (S i)).
  assert (Forall (fun j => (i <= j)%nat) (text_positions r (S i))).
  { eapply Forall_impl; [|exact IH]. simpl. lia. }
  destruct (has_text a); auto.
Qed.

Lemma text_positions_nodup (arts : list article) (i : nat) :
  NoDup (text_positions arts i).
Proof.
  revert i. induction arts as [|a r IH]; intros i; simpl; [constructor|].
  destruct (has_text a); [|apply IH].
  constructor; [|apply IH]. intros Hin.
  pose proof (text_positions_bound r (S i)) as Hb.
  rewrite Forall_forall in Hb. specialize (Hb i Hin). lia.
Qed.

Lemma mem_id_app (s : FlatStore.t) (e : FlatStore.entry) (i : string) :
  FlatStore.mem_id (s ++ [e]) i =
  (FlatStore.mem_id s i || String.eqb (FlatStore.e_id e) i)%bool.
Proof.
  unfold FlatStore.mem_id. rewrite existsb_app. simpl.
  rewrite orb_false_r. reflexivity.
Qed.

Lemma add_all_fresh (s : FlatStore.t) (ids docs : list string)
  (embs : list vec) (ms : list meta) :
  NoDup ids -> (forall i, In i ids -> FlatStore.mem_id s i = false) ->
  List.length docs = List.length ids -> List.length embs = List.length ids ->
  List.length ms = List.length ids ->
  List.length (FlatStore.add_all s ids docs embs ms)
  = (List.length s + List.length ids)%nat.
Proof.
  revert s docs embs ms.
  induction ids as [|i ids IH]; intros s docs embs ms Hnd Hfresh Hd He Hm.
  - destruct docs, embs, ms; simpl; lia.
  - destruct docs as [|d docs]; [discriminate|].
    destruct embs as [|v embs]; [discriminate|].
    destruct ms as [|m ms]; [discriminate|].
    simpl in *. inversion Hnd as [|? ? Hni Hnd']; subst.
    rewrite (Hfresh i (or_introl eq_refl)).
    rewrite IH; [rewrite length_app; simpl; lia | exact Hnd' | | lia | lia | lia].
    intros i' Hin. rewrite mem_id_app, (Hfresh i' (or_intror Hin)). simpl.
    apply String.eqb_neq. intros ->. contradiction.
Qed.

Lemma build_recs_error (ms : list (option meta)) (ds : list Q) (j : nat)
  (e : exn) :
  build_recs ms ds j = inl e ->
  e = IndexError /\
  exists i m, nth_error ms i = Some (Some m) /\ (List.length ds <= j + i)%nat.
Proof.
  revert j. induction ms as [|[m|] ms IH]; intros j Hb; simpl in Hb;
    [discriminate | |].
  - destruct (nth_error ds j) as [d|] eqn:Ed.
    + destruct (build_recs ms ds (S j)) as [e'|l] eqn:Eb; [|discriminate].
      inversion Hb; subst. destruct (IH (S j) Eb) as [-> (i & m' & Hi & Hl)].
      split; [reflexivity|]. exists (S i), m'. split; [exact Hi | lia].
    + inversion Hb; subst. split; [reflexivity|]. exists 0%nat, m.
      split; [reflexivity|]. apply nth_error_None in Ed. lia.
  - destruct (IH (S j) Hb) as [-> (i & m' & Hi & Hl)].
    split; [reflexivity|]. exists (S i), m'. split; [exact Hi | lia].
Qed.

Lemma build_recs_out_of_range (ms : list (option meta)) (ds : list Q)
  (j i : nat) (m : meta) :
  nth_error ms i = Some (Some m) -> (List.length ds <= j + i)%nat ->
  build_recs ms ds j = inl IndexError.
Proof.
  revert j i. induction ms as [|o ms IH]; intros j [|i] Hi Hl; simpl in Hi;
    try discriminate.
  - inversion Hi; subst. simpl.
    replace (nth_error ds j) with (@None Q)
      by (symmetry; apply nth_error_None; lia). reflexivity.
  - simpl. destruct o as [m'|].
    + destruct (nth_error ds j); [|reflexivity].
      rewrite (IH (S j) i Hi) by lia. reflexivity.
    + apply (IH (S j) i Hi). lia.
Qed.

Lemma collect_ids_nodup (arts : list article) :
  NoDup (fst (fst (collect arts 0))).
Proof.
  rewrite collect_ids. apply (NoDup_map_inv dec_val).
  rewrite map_map. erewrite map_ext; [rewrite map_id|].
  - apply text_positions_nodup.
  - intros n. apply dec_val_str_nat.
Qed.

Section Extras.

Context {St : Type} `{VectorStore St}.
Variable encode : list string -> option (list vec).

(** X1: the ids [store_articles] hands to [collection.add] are [str(i)]
    for the positions [i] (in the whole input list) of the records with
    non-empty text: [int] gives those positions back, and no id occurs
    twice in one batch. *)
Theorem store_articles_ids_are_positions (arts : list article) :
  let '(ids, _, _) := collect arts 0 in
  map dec_val ids = text_positions arts 0 /\ NoDup ids.
Proof.
  pose proof (collect_ids arts 0) as Hids.
  destruct (collect arts 0) as [[ids docs] ms]. simpl in Hids. subst ids.
  assert (Hrt : map dec_val (map str_nat (text_positions arts 0))
                = text_positions arts 0).
  { rewrite map_map. erewrite map_ext; [apply map_id|].
    intros n. apply dec_val_str_nat. }
  split; [exact Hrt|].
  apply (NoDup_map_inv dec_val). rewrite Hrt. apply text_positions_nodup.
Qed.

(** X2: for records whose text lies in U+0000 to U+00FF, a record is
    skipped by the loop of [store_articles] exactly when
    [f"{title} {description}"] consists only of characters for which
    [str.isspace] holds (including U+0085 and U+00A0). *)
Theorem store_articles_skips_blank_records (a : article) (r : list article)
  (i : nat) :
  collect (a :: r) i = collect r (S i) <->
  Forall ws (list_ascii_of_string
    (get_str (a_title a) "" ++ " " ++ get_str (a_description a) "")%string).
Proof.
  rewrite <- strip_empty_iff. change (strip _) with (derived_text a).
  simpl. destruct (collect r (S i)) as [[ids docs] ms].
  destruct (String.eqb (derived_text a) "") eqn:E.
  - apply String.eqb_eq in E. split; auto.
  - apply String.eqb_neq in E. split; [|contradiction].
    intros Heq. inversion Heq as [Hids].
    apply (f_equal (@List.length string)) in Hids. simpl in Hids. lia.
Qed.

(** X3: a title or description that is JSON [null] is rendered as the
    text "None", so such a record is never skipped: its derived text is
    not empty. *)
Theorem store_articles_null_field_not_skipped (a : article) :
  a_title a = Some FNone \/ a_description a = Some FNone ->
  derived_text a <> "".
Proof.
  intros Hnull Hs. unfold derived_text in Hs. apply strip_empty_iff in Hs.
  rewrite !list_ascii_of_string_app in Hs.
  destruct Hnull as [Ht|Hd].
  - rewrite Ht in Hs. simpl in Hs. inversion Hs as [|? ? Hn _].
    discriminate Hn.
  - rewrite Hd in Hs. apply Forall_app in Hs as [_ Hs].
    apply Forall_app in Hs as [_ Hs]. simpl in Hs.
    inversion Hs as [|? ? Hn _]. discriminate Hn.
Qed.

(** X4: for records whose text lies in U+0000 to U+00FF, the derived
    text that is embedded and stored neither starts nor ends with a
    character for which [str.isspace] holds (including U+0085 and
    U+00A0). *)
Theorem derived_text_trimmed (a : article) (c : ascii) (rest : list ascii) :
  list_ascii_of_string (derived_text a) = c :: rest ->
  is_ws c = false /\ is_ws (last (c :: rest) c) = false.
Proof.
  unfold derived_text, strip. rewrite list_ascii_of_string_of_list_ascii.
  set (l := list_ascii_of_string _).
  pose proof (lstrip_head l) as Hz.
  pose proof (lstrip_split (rev (lstrip_list l))) as (p & Hp & _).
  pose proof (lstrip_head (rev (lstrip_list l))) as Hy.
  set (z := lstrip_list l) in *. set (y := lstrip_list (rev z)) in *.
  intros Hrev.
  assert (Hy' : y = rev rest ++ [c]).
  { rewrite <- (rev_involutive y), Hrev. reflexivity. }
  split.
  - destruct z as [|z0 z'] eqn:Ez.
    + simpl in Hp. symmetry in Hp. apply app_eq_nil in Hp as [_ Hnil].
      rewrite Hnil in Hrev. discriminate.
    + simpl in Hp. rewrite Hy' in Hp.
      apply (f_equal (fun x => last x c)) in Hp.
      rewrite last_last, app_assoc, last_last in Hp. subst. exact Hz.
  - rewrite <- Hrev. destruct y as [|y0 y'] eqn:Ey; [discriminate|].
    simpl. rewrite last_last. exact Hy.
Qed.

(** X5: [store_articles] calls the encoder at most once, with all the
    derived texts of the records with non-empty text in input order, and
    not at all when there is none; this holds whether the call and the
    store succeed or not. *)
Theorem store_articles_single_encoder_batch (arts : list article)
  (w : world St) :
  w_encoded (snd (store_articles encode arts w)) =
  w_encoded w ++
    (if Nat.eqb (count_nonempty arts) 0 then []
     else [map derived_text (filter has_text arts)]).
Proof.
  destruct arts as [|a r]; [simpl; rewrite app_nil_r; reflexivity|].
  pose proof (collect_spec (a :: r) 0) as Hc. unfold store_articles.
  destruct (collect (a :: r) 0) as [[ids docs] ms]. destruct Hc as (H1 & H2 & H3).
  destruct ids as [|i ids].
  - simpl in H1. rewrite <- H1. simpl. rewrite app_nil_r. reflexivity.
  - rewrite <- H1, <- H2. simpl.
    unfold bind, encode_m, add_m, print_stored, ret.
    destruct (encode docs); [|reflexivity]. simpl.
    destruct (vs_add _ _ _ _ _); reflexivity.
Qed.

(** X8: reading the query answer fails exactly when some returned
    metadata that is not [None] has no distance at its index; the error
    is then [IndexError], and no other exception arises there. *)
Theorem read_results_index_error (res : query_result)
  (ms : list (option meta)) (mss : list (list (option meta)))
  (ds : list Q) (dss : list (list Q)) (e : exn) :
  qr_metadatas res = Some (ms :: mss) -> qr_distances res = Some (ds :: dss) ->
  (read_results res = inl e <->
   e = IndexError /\
   exists i m, nth_error ms i = Some (Some m) /\ (List.length ds <= i)%nat).
Proof.
  intros Hm Hd. unfold read_results. rewrite Hm, Hd. split.
  - apply build_recs_error.
  - intros [-> (i & m & Hi & Hl)]. apply (build_recs_out_of_range ms ds 0 i m Hi).
    lia.
Qed.

(** X9: storing a batch into an empty collection stores one entry for
    every record with non-empty derived text, provided the encoder
    returns one vector per text: the positional ids never collide
    within a batch. *)
Theorem store_articles_fills_empty_collection (arts : list article)
  (vs : list vec) (e : list (list string)) (p : list nat) :
  encode (collected_docs arts) = Some vs ->
  List.length vs = List.length (collected_docs arts) ->
  FlatStore.count
    (w_store (snd (store_articles encode arts (@mkWorld FlatStore.t [] e p))))
  = Z.of_nat (count_nonempty arts).
Proof.
  intros Henc Hlen.
  pose proof (collect_ids_nodup arts) as Hnd.
  pose proof (collect_spec arts 0) as Hc. unfold collected_docs in *.
  destruct arts as [|a r]; [reflexivity|]. unfold store_articles.
  destruct (collect (a :: r) 0) as [[ids docs] ms].
  destruct Hc as (H1 & H2 & H3). simpl in Hnd.
  destruct ids as [|i ids].
  - simpl in H1. rewrite <- H1. reflexivity.
  - unfold bind, encode_m, add_m, print_stored, ret. rewrite Henc. simpl.
    unfold FlatStore.add.
    assert (Hdocs : List.length docs = List.length (i :: ids)).
    { rewrite H1, H2, length_map. reflexivity. }
    rewrite (proj2 (Nat.eqb_eq _ _) Hdocs).
    rewrite (proj2 (Nat.eqb_eq _ _) (eq_trans Hlen Hdocs)).
    rewrite (proj2 (Nat.eqb_eq _ _) (eq_trans H3 (eq_sym H1))).
    rewrite <- H1. unfold FlatStore.count.
    pose proof (add_all_fresh [] (i :: ids) docs vs ms Hnd (fun _ _ => eq_refl)
               Hdocs (eq_trans Hlen Hdocs) (eq_trans H3 (eq_sym H1))) as Ha.
    remember (FlatStore.add_all [] (i :: ids) docs vs ms) as A.
    simpl. rewrite Ha. reflexivity.
Qed.

End Extras.

Lemma store_articles_null_field_not_skipped_witness :
  (a_title (mkArticle (Some FNone) None None None) = Some FNone \/
   a_description (mkArticle (Some FNone) None None None) = Some FNone) /\
  derived_text (mkArticle (Some FNone) None None None) <> "".
Proof.
  split; [left; reflexivity|].
  apply store_articles_null_field_not_skipped. left. reflexivity.
Defined.

Lemma derived_text_trimmed_witness :
  list_ascii_of_string (derived_text (art nbsp_gemini ai_nel))
    = "G"%char :: list_ascii_of_string "emini  AI" /\
  (is_ws "G"%char = false /\
   is_ws (last ("G"%char :: list_ascii_of_string "emini  AI") "G"%char)
     = false).
Proof.
  split; [vm_compute; reflexivity|].
  apply derived_text_trimmed with (a := art nbsp_gemini ai_nel).
  vm_compute. reflexivity.
Defined.

Lemma read_results_index_error_witness :
  read_results (mkQR (Some [[Some []; Some []]]) (Some [[0]]))
    = inl IndexError /\
  (read_results (mkQR (Some [[Some []; Some []]]) (Some [[0]]))
     = inl IndexError <->
   IndexError = IndexError /\
   exists i (m : meta), nth_error [Some []; Some []] i = Some (Some m) /\
               (List.length [0 : Q] <= i)%nat).
Proof.
  split; [reflexivity|].
  apply (read_results_index_error
           (mkQR (Some [[Some []; Some []]]) (Some [[0]]))
           [Some []; Some []] [] [0] []); reflexivity.
Defined.

Lemma store_articles_fills_empty_collection_witness :
  toy_encode (collected_docs demo_articles)
    = Some (map toy_vec (collected_docs demo_articles)) /\
  FlatStore.count
    (w_store (snd (store_articles toy_encode demo_articles
                     (@mkWorld FlatStore.t [] [] []))))
  = Z.of_nat (count_nonempty demo_articles).
Proof.
  split; [reflexivity|].
  apply (store_articles_fills_empty_collection toy_encode demo_articles
           (map toy_vec (collected_docs demo_articles)) [] []).
  - reflexivity.
  - apply length_map.
Defined.
